(** * unset_preload.so: keeping LD_PRELOAD out of child processes

    Verification of [scripts/unset_preload.c].  The translation unit holds one
    function, the ELF constructor

      __attribute__((constructor))
      static void unset_preload(void) { unsetenv("LD_PRELOAD"); }

    which the dynamic linker runs once while the process starts.  The file
    first models the part of the C library the constructor is linked against
    (the environment block and the calls of <stdlib.h> that read and write
    it), then embeds the constructor itself, then a small model of the
    process after start-up (further environment calls and child creation),
    and finally states and proves the properties of the scrub. *)

From Stdlib Require Import String Ascii List ZArith Bool Lia.
Import ListNotations.
Local Open Scope string_scope.
Local Open Scope Z_scope.

(** ** A state monad for code that works on process-global state *)

Definition M (S A : Type) : Type := S -> A * S.

Definition ret {S A : Type} (a : A) : M S A := fun s => (a, s).

Definition bind {S A B : Type} (m : M S A) (k : A -> M S B) : M S B :=
  fun s => let (a, s') := m s in k a s'.

Notation "x <- m ;; k" := (bind m (fun x => k))
  (at level 61, m at next level, right associativity).

(** The C type [int]; the environment calls only ever return 0 or -1. *)
Definition int : Type := Z.

(** ** The environment interface of the C library *)

Module Libc.

(** [char **environ]: the NULL-terminated vector of the process, one C string
    per entry, by convention of the form [name=value].  The vector is kept as
    the list of its entries, in order; nothing forces an entry to hold an
    equals sign or two entries to have different names. *)
Definition environ : Type := list string.

(** [strchr(s, '=') != NULL]. *)
Fixpoint has_equals (s : string) : bool :=
  match s with
  | EmptyString => false
  | String c rest => if Ascii.eqb c "=" then true else has_equals rest
  end.

(** The test every environment call applies to its [name] argument:
    [name == NULL || *name == '\0' || strchr(name, '=') != NULL] is an
    error (EINVAL). *)
Definition valid_name (name : string) : bool :=
  match name with
  | EmptyString => false
  | String _ _ => negb (has_equals name)
  end.

(** [strncmp(entry, name, len) == 0 && entry[len] == '='] with
    [len = strlen(name)]: the entry defines [name]; the result is then the
    text after the equals sign, [&entry[len + 1]]. *)
Fixpoint entry_value (name entry : string) : option string :=
  match name, entry with
  | EmptyString, String c value => if Ascii.eqb c "=" then Some value else None
  | EmptyString, EmptyString => None
  | String a name', String b entry' =>
      if Ascii.eqb a b then entry_value name' entry' else None
  | String _ _, EmptyString => None
  end.

Definition defines (name entry : string) : bool :=
  match entry_value name entry with
  | Some _ => true
  | None => false
  end.

(** The scan of [getenv]: the value of the first entry that defines [name]. *)
Fixpoint find_entry (name : string) (ep : environ) : option string :=
  match ep with
  | [] => None
  | entry :: rest =>
      match entry_value name entry with
      | Some value => Some value
      | None => find_entry name rest
      end
  end.

(** Modelled from the spec: [getenv] of <stdlib.h> is the query of the
    "environment mapping" ("querying that variable from within the same
    process returns not present"); the C library is not part of the
    repository.  As in glibc: the empty name is never found, otherwise the
    first entry [name=value] answers; [None] stands for the NULL result. *)
Definition getenv (name : string) (env : environ) : option string :=
  match name with
  | EmptyString => None
  | String _ _ => find_entry name env
  end.

(** The loop of [unsetenv]: every entry that defines [name] is taken out of
    the vector (the later pointers are moved down, and the scan goes on "in
    case NAME appears again"); the other entries keep their order. *)
Fixpoint remove_entries (name : string) (ep : environ) : environ :=
  match ep with
  | [] => []
  | entry :: rest =>
      if defines name entry
      then remove_entries name rest
      else entry :: remove_entries name rest
  end.

(** Modelled from the spec: [unsetenv] of <stdlib.h>, the "underlying removal
    primitive", is declared by the header the source includes and defined by
    the C library, outside the repository.  "Delete the entry for that name
    from the process environment mapping if present; if absent, this is a
    no-op"; it "may fail (e.g., invalid name)", in which case it returns -1
    and leaves the environment as it was.  On success it returns 0. *)
Definition unsetenv (name : string) : M environ int :=
  fun env =>
    if valid_name name then (0, remove_entries name env) else (-1, env).

(** The search-and-store of [__add_to_environ], shared by [setenv] and
    [putenv]: the first entry that defines [name] is overwritten by [entry]
    when [replace] is set and kept otherwise; when no entry defines [name],
    [entry] is appended at the end of the vector. *)
Fixpoint add_to_environ (name entry : string) (replace : bool) (ep : environ)
  : environ :=
  match ep with
  | [] => [entry]
  | old :: rest =>
      if defines name old
      then (if replace then entry :: rest else old :: rest)
      else old :: add_to_environ name entry replace rest
  end.

(** Modelled from the spec: [setenv] of <stdlib.h>, one of the ways "other
    code in the same process re-adds" or re-sets a variable; defined by the
    C library, outside the repository.  An invalid name is refused with -1. *)
Definition setenv (name value : string) (overwrite : int) : M environ int :=
  fun env =>
    if valid_name name
    then (0, add_to_environ name (name ++ "=" ++ value)
               (negb (overwrite =? 0)) env)
    else (-1, env).

(** [strndup(string, strchr(string, '=') - string)]: the text before the
    first equals sign. *)
Fixpoint name_of (entry : string) : string :=
  match entry with
  | EmptyString => EmptyString
  | String c rest => if Ascii.eqb c "=" then EmptyString else String c (name_of rest)
  end.

(** Modelled from the spec: [putenv] of <stdlib.h>, the other way to write an
    entry; the C library is outside the repository.  As in glibc: a string
    with an equals sign becomes the entry of its name, a string without one
    unsets that name. *)
Definition putenv (entry : string) : M environ int :=
  fun env =>
    if has_equals entry
    then (0, add_to_environ (name_of entry) entry true env)
    else (0, snd (unsetenv entry env)).

(** Modelled from the spec: [clearenv] of <stdlib.h> empties the vector. *)
Definition clearenv : M environ int := fun _ => (0, []).

End Libc.

Import Libc.

(** ** The constructor *)

(** [static void unset_preload(void)], written against the [unsetenv] it is
    linked with.  The state [S] is whatever that primitive works on; the
    [int] it returns is dropped by the expression statement. *)
Definition unset_preload {S : Type} (unsetenv : string -> M S int) : M S unit :=
  _ <- unsetenv "LD_PRELOAD" ;;
  ret tt.

(** The environment of the process once its constructors have run. *)
Definition after_load (env : environ) : environ :=
  snd (unset_preload Libc.unsetenv env).

(** The name under which the dynamic linker reads its preload list, and so
    the variable by which this module gets loaded (the header of the source:
    Usage: LD_PRELOAD="/usr/lib/gl4es/libGL.so.1 /usr/lib/unset_preload.so"). *)
Definition preload_variable : string := "LD_PRELOAD".

(** A primitive instrumented with the list of the names it was called with,
    oldest first; used to count what the constructor asks of the library. *)
Definition traced {S : Type} (prim : string -> M S int)
  : string -> M (list string * S) int :=
  fun name st =>
    let (r, s') := prim name (snd st) in (r, ((fst st ++ [name])%list, s')).

(** ** The process after start-up *)

(** Modelled from the spec: the process environment is "inherited by
    convention (copy-on-fork, not shared) by any child process"; "child
    environments are point-in-time copies taken at spawn time".  A process
    is its own environment block together with the blocks that were handed
    to the children it has created so far, latest first. *)
Record process : Type := {
  proc_environ : environ;
  proc_children : list environ
}.

(** What the program does to its environment once [main] runs: the writing
    calls of <stdlib.h>, and the creation of a child ([system], [popen],
    [fork] with [execve]), which copies the block as it is at that time. *)
Inductive action : Type :=
| Setenv (name value : string) (overwrite : int)
| Unsetenv (name : string)
| Putenv (entry : string)
| Clearenv
| Spawn.

Definition perform (a : action) (p : process) : process :=
  match a with
  | Setenv name value overwrite =>
      {| proc_environ := snd (setenv name value overwrite (proc_environ p));
         proc_children := proc_children p |}
  | Unsetenv name =>
      {| proc_environ := snd (Libc.unsetenv name (proc_environ p));
         proc_children := proc_children p |}
  | Putenv entry =>
      {| proc_environ := snd (putenv entry (proc_environ p));
         proc_children := proc_children p |}
  | Clearenv =>
      {| proc_environ := snd (clearenv (proc_environ p));
         proc_children := proc_children p |}
  | Spawn =>
      {| proc_environ := proc_environ p;
         proc_children := proc_environ p :: proc_children p |}
  end.

(** The actions by which the program itself would put LD_PRELOAD back:
    setting that name, or storing an entry that defines it. *)
Definition readds_preload (a : action) : bool :=
  match a with
  | Setenv name _ _ => String.eqb name "LD_PRELOAD"
  | Putenv entry => defines "LD_PRELOAD" entry
  | _ => false
  end.

(** One step of the running program: any action that does not re-add the
    variable. *)
Inductive step : process -> process -> Prop :=
| step_perform (a : action) (p : process) :
    readds_preload a = false -> step p (perform a p).

(** The process as the loader hands it to [main]: the constructor has run on
    the environment the process was started with, no child exists yet. *)
Definition loaded (env0 : environ) : process :=
  {| proc_environ := after_load env0; proc_children := [] |}.

(** The states of a process started with [env0]: the first step is the one
    run of the constructor, every later one is a [step]. *)
Inductive reachable (env0 : environ) : process -> Prop :=
| reach_loaded : reachable env0 (loaded env0)
| reach_step (p q : process) :
    reachable env0 p -> step p q -> reachable env0 q.

(** No entry of the block defines LD_PRELOAD. *)
Definition scrubbed (env : environ) : Prop :=
  forall entry, In entry env -> defines "LD_PRELOAD" entry = false.

(** The invariant of the running process: neither its own block nor a block
    handed to a child holds an entry of LD_PRELOAD. *)
Definition clean (p : process) : Prop :=
  scrubbed (proc_environ p) /\ Forall scrubbed (proc_children p).

(** The environment of the scenario of the specification: the preload list
    names a graphics shim and this module, and there is one other variable. *)
Definition scenario_env : environ :=
  ["LD_PRELOAD=/path/a.so /path/unset.so"; "OTHER=x"].

(** A removal primitive that reports failure whatever it did: the state
    effect of [prim], the return value -1. *)
Definition reporting_failure {S : Type} (prim : string -> M S int)
  : string -> M S int :=
  fun name s => (-1, snd (prim name s)).

(** A primitive instrumented with the record of its calls, oldest first:
    for each call the name it was given and the [int] it returned. *)
Definition logged {S : Type} (prim : string -> M S int)
  : string -> M (list (string * int) * S) int :=
  fun name st =>
    let (r, s') := prim name (snd st) in
    (r, ((fst st ++ [(name, r)])%list, s')).

(** ** The rest of the process state *)

(** [EINVAL] of <errno.h>. *)
Definition EINVAL : int := 22.

(** What a constructor finds besides the environment block: [errno], and
    the argument vector of the program, which the loader hands to every
    constructor ([argc], [argv], [envp]) and which this one, declared
    [(void)], does not take. *)
Record machine : Type := {
  m_environ : environ;
  m_errno : int;
  m_argv : list string
}.

(** Modelled from the spec: [unsetenv] of <stdlib.h> on the whole state, as
    the C library has it: success writes the block and leaves [errno] alone,
    a refused name leaves the block alone and sets [errno] to [EINVAL]. *)
Definition unsetenv_errno (name : string) : M machine int :=
  fun m =>
    if valid_name name
    then (0, {| m_environ := remove_entries name (m_environ m);
                m_errno := m_errno m;
                m_argv := m_argv m |})
    else (-1, {| m_environ := m_environ m;
                 m_errno := EINVAL;
                 m_argv := m_argv m |}).

(** ** Properties of the environment primitives *)

Lemma ascii_eqb_true (a b : ascii) : Ascii.eqb a b = true -> a = b.
Proof. apply Ascii.eqb_eq. Qed.

(** An entry has one name: the text before its first equals sign.  Two names
    without an equals sign that the same entry defines are the same name. *)
Lemma entry_value_same_name (n1 n2 entry v1 v2 : string) :
  has_equals n1 = false -> has_equals n2 = false ->
  entry_value n1 entry = Some v1 -> entry_value n2 entry = Some v2 ->
  n1 = n2.
Proof.
  revert n2 entry.
  induction n1 as [| a n1 IH]; intros [| b n2] [| c entry]; simpl;
    try discriminate; try reflexivity.
  - (* n1 ends at an equals sign of the entry, n2 goes on through it *)
    intros _ H2 H1 H.
    destruct (Ascii.eqb c "=") eqn:Ec; [| discriminate].
    destruct (Ascii.eqb b c) eqn:Eb; [| discriminate].
    apply ascii_eqb_true in Eb. subst c. rewrite Ec in H2. discriminate.
  - intros H1 _ H H2.
    destruct (Ascii.eqb c "=") eqn:Ec; [| discriminate].
    destruct (Ascii.eqb a c) eqn:Ea; [| discriminate].
    apply ascii_eqb_true in Ea. subst c. rewrite Ec in H1. discriminate.
  - intros H1 H2 E1 E2.
    destruct (Ascii.eqb a c) eqn:Ea; [| discriminate].
    destruct (Ascii.eqb b c) eqn:Eb; [| discriminate].
    apply ascii_eqb_true in Ea. apply ascii_eqb_true in Eb. subst a b.
    destruct (Ascii.eqb c "="); [discriminate |].
    f_equal. exact (IH n2 entry H1 H2 E1 E2).
Qed.

Lemma defines_true (name entry : string) :
  defines name entry = true -> exists v, entry_value name entry = Some v.
Proof.
  unfold defines. destruct (entry_value name entry) as [v |].
  - intros _. exists v. reflexivity.
  - discriminate.
Qed.

Lemma defines_false (name entry : string) :
  defines name entry = false -> entry_value name entry = None.
Proof.
  unfold defines. destruct (entry_value name entry); [discriminate | reflexivity].
Qed.

(** An entry of LD_PRELOAD is the entry of no other name. *)
Lemma preload_entry_no_other (name entry : string) :
  has_equals name = false -> name <> "LD_PRELOAD" ->
  defines "LD_PRELOAD" entry = true -> entry_value name entry = None.
Proof.
  intros Hn Hne Hd.
  destruct (defines_true _ _ Hd) as [v Hv].
  destruct (entry_value name entry) as [w |] eqn:Ew; [| reflexivity].
  exfalso. apply Hne.
  exact (entry_value_same_name name "LD_PRELOAD" entry w v Hn eq_refl Ew Hv).
Qed.

Lemma entry_value_own (name value : string) :
  entry_value name (name ++ "=" ++ value) = Some value.
Proof.
  induction name as [| a name IH]; simpl.
  - reflexivity.
  - rewrite Ascii.eqb_refl. exact IH.
Qed.

(** The entry [setenv] writes for another valid name does not define
    LD_PRELOAD. *)
Lemma new_entry_not_preload (name value : string) :
  valid_name name = true -> String.eqb name "LD_PRELOAD" = false ->
  defines "LD_PRELOAD" (name ++ "=" ++ value) = false.
Proof.
  intros Hv Hne.
  destruct (defines "LD_PRELOAD" (name ++ "=" ++ value)) eqn:Hd; [| reflexivity].
  assert (Hn : has_equals name = false).
  { destruct name; [discriminate |].
    unfold valid_name in Hv. now apply negb_true_iff in Hv. }
  assert (Hneq : name <> "LD_PRELOAD") by now apply String.eqb_neq.
  pose proof (preload_entry_no_other _ _ Hn Hneq Hd) as H.
  rewrite entry_value_own in H. discriminate.
Qed.

Lemma remove_entries_filter (name : string) (env : environ) :
  remove_entries name env = filter (fun entry => negb (defines name entry)) env.
Proof.
  induction env as [| entry rest IH]; simpl.
  - reflexivity.
  - destruct (defines name entry); simpl; now rewrite IH.
Qed.

Lemma remove_entries_In (name entry : string) (env : environ) :
  In entry (remove_entries name env) <->
  In entry env /\ defines name entry = false.
Proof.
  rewrite remove_entries_filter, filter_In, negb_true_iff. reflexivity.
Qed.

Lemma remove_entries_absent (name : string) (env : environ) :
  (forall entry, In entry env -> defines name entry = false) ->
  remove_entries name env = env.
Proof.
  induction env as [| entry rest IH]; simpl; intros H.
  - reflexivity.
  - rewrite (H entry (or_introl eq_refl)).
    f_equal. apply IH. intros e He. apply H. now right.
Qed.

Lemma find_entry_none (name : string) (env : environ) :
  find_entry name env = None <->
  (forall entry, In entry env -> defines name entry = false).
Proof.
  induction env as [| entry rest IH]; simpl.
  - split; [intros _ e [] | reflexivity].
  - unfold defines at 1.
    destruct (entry_value name entry) as [v |] eqn:E.
    + split; [discriminate |].
      intros H. specialize (H entry (or_introl eq_refl)).
      unfold defines in H. rewrite E in H. discriminate.
    + rewrite IH. split.
      * intros H e [<- | He]; [unfold defines; now rewrite E | now apply H].
      * intros H e He. apply H. now right.
Qed.

Lemma find_entry_remove_entries_other (name : string) (env : environ) :
  has_equals name = false -> name <> "LD_PRELOAD" ->
  find_entry name (remove_entries "LD_PRELOAD" env) = find_entry name env.
Proof.
  intros Hn Hne.
  induction env as [| entry rest IH]; [reflexivity |].
  cbn [remove_entries find_entry].
  destruct (defines "LD_PRELOAD" entry) eqn:Hd.
  - rewrite (preload_entry_no_other name entry Hn Hne Hd). exact IH.
  - cbn [find_entry]. now rewrite IH.
Qed.

Lemma add_to_environ_In (name new entry : string) (replace : bool) (env : environ) :
  In entry (add_to_environ name new replace env) -> entry = new \/ In entry env.
Proof.
  induction env as [| old rest IH]; simpl.
  - intros [<- | []]. now left.
  - destruct (defines name old).
    + destruct replace; simpl; intros [<- | H]; auto.
    + simpl. intros [<- | H]; auto.
      destruct (IH H); auto.
Qed.

(** ** The constructor against any primitive *)

Section Linked.

Context {S : Type} (prim : string -> M S int).

(** The constructor, unfolded: its state effect is that of the one call. *)
Lemma unset_preload_run (s : S) :
  unset_preload prim s = (tt, snd (prim "LD_PRELOAD" s)).
Proof.
  unfold unset_preload, bind, ret.
  destruct (prim "LD_PRELOAD" s) as [r s']. reflexivity.
Qed.

(** Run on the instrumented primitive, the constructor adds one name to the
    record of calls. *)
Lemma traced_unset_preload (log : list string) (s : S) :
  snd (unset_preload (traced prim) (log, s)) =
  ((log ++ ["LD_PRELOAD"])%list, snd (prim "LD_PRELOAD" s)).
Proof.
  unfold unset_preload, bind, ret, traced. simpl.
  destruct (prim "LD_PRELOAD" s) as [r s']. reflexivity.
Qed.

(** Run on the primitive that records its calls, the constructor adds one
    call to the record: the name LD_PRELOAD with what the primitive
    returned for it. *)
Lemma logged_unset_preload (log : list (string * int)) (s : S) :
  snd (unset_preload (logged prim) (log, s)) =
  ((log ++ [("LD_PRELOAD", fst (prim "LD_PRELOAD" s))])%list,
   snd (prim "LD_PRELOAD" s)).
Proof.
  unfold unset_preload, bind, ret, logged. simpl.
  destruct (prim "LD_PRELOAD" s) as [r s']. reflexivity.
Qed.


End Linked.


Lemma after_load_remove (env : environ) :
  after_load env = remove_entries "LD_PRELOAD" env.
Proof.
  unfold after_load. rewrite unset_preload_run. reflexivity.
Qed.

Lemma scrubbed_getenv (env : environ) :
  scrubbed env <-> getenv "LD_PRELOAD" env = None.
Proof.
  unfold scrubbed, getenv. symmetry. apply find_entry_none.
Qed.

Lemma after_load_scrubbed (env : environ) : scrubbed (after_load env).
Proof.
  rewrite after_load_remove. intros entry He.
  now apply remove_entries_In in He.
Qed.

(** ** The invariant of the running process *)

Lemma scrubbed_add (name new : string) (replace : bool) (env : environ) :
  defines "LD_PRELOAD" new = false -> scrubbed env ->
  scrubbed (add_to_environ name new replace env).
Proof.
  intros Hnew Henv entry He.
  destruct (add_to_environ_In _ _ _ _ _ He) as [-> | Hin].
  - exact Hnew.
  - now apply Henv.
Qed.

Lemma scrubbed_unsetenv (name : string) (env : environ) :
  scrubbed env -> scrubbed (snd (Libc.unsetenv name env)).
Proof.
  intros Henv. unfold Libc.unsetenv.
  destruct (valid_name name); simpl; [| exact Henv].
  intros entry He. apply Henv. now apply remove_entries_In in He.
Qed.

Lemma perform_clean (a : action) (p : process) :
  readds_preload a = false -> clean p -> clean (perform a p).
Proof.
  intros Ha [Henv Hch].
  destruct a as [name value overwrite | name | entry | |]; simpl in Ha;
    split; simpl; try exact Hch.
  - unfold setenv. destruct (valid_name name) eqn:Hv; simpl; [| exact Henv].
    apply scrubbed_add; [| exact Henv].
    now apply new_entry_not_preload.
  - now apply scrubbed_unsetenv.
  - unfold putenv. destruct (has_equals entry); simpl.
    + now apply scrubbed_add.
    + now apply scrubbed_unsetenv.
  - intros entry [].
  - exact Henv.
  - constructor; assumption.
Qed.

Lemma reachable_clean (env0 : environ) (p : process) :
  reachable env0 p -> clean p.
Proof.
  induction 1 as [| p q _ IH Hstep].
  - split; [apply after_load_scrubbed | constructor].
  - destruct Hstep as [a p Ha]. now apply perform_clean.
Qed.

(** ** The claims *)

(** C1 (effectiveness): whatever the environment of the process holds, and in
    particular when it holds an entry for LD_PRELOAD, after the constructor
    has run [getenv("LD_PRELOAD")] answers "not present". *)
Theorem unset_preload_effective (env : environ) :
  getenv "LD_PRELOAD" (after_load env) = None.
Proof.
  apply scrubbed_getenv, after_load_scrubbed.
Qed.


(** C2 (non-inheritance): in a process started with any environment (with
    LD_PRELOAD set in it or not), every child created after the constructor
    has run, at whatever later point of a run that does not itself re-add
    the variable, is handed a block in which LD_PRELOAD is not present and
    no entry defines it. *)
Theorem child_does_not_inherit (env0 : environ) (p : process) (child : environ) :
  reachable env0 p -> In child (proc_children p) ->
  getenv "LD_PRELOAD" child = None /\
  (forall entry, In entry child -> defines "LD_PRELOAD" entry = false).
Proof.
  intros Hreach Hin.
  destruct (reachable_clean env0 p Hreach) as [_ Hch].
  rewrite Forall_forall in Hch. specialize (Hch child Hin).
  split; [now apply scrubbed_getenv | exact Hch].
Qed.

Lemma child_does_not_inherit_witness :
  reachable scenario_env (perform Spawn (loaded scenario_env)) /\
  In ["OTHER=x"] (proc_children (perform Spawn (loaded scenario_env))) /\
  getenv "LD_PRELOAD" ["OTHER=x"] = None /\
  (forall entry, In entry ["OTHER=x"] -> defines "LD_PRELOAD" entry = false).
Proof.
  assert (R : reachable scenario_env (perform Spawn (loaded scenario_env))).
  { eapply reach_step; [apply reach_loaded | now apply step_perform]. }
  assert (I : In ["OTHER=x"] (proc_children (perform Spawn (loaded scenario_env)))).
  { left. reflexivity. }
  split; [exact R |]. split; [exact I |].
  exact (child_does_not_inherit scenario_env _ _ R I).
Defined.

(** C3 (non-interference): the constructor takes the entries of LD_PRELOAD
    out of the block and leaves every other entry in place, in order and
    unchanged; so for every variable name other than LD_PRELOAD (a name holds
    no equals sign) [getenv] answers after the constructor what it answered
    before, present or not and with the same value. *)
Theorem unset_preload_frame (env : environ) :
  after_load env = filter (fun entry => negb (defines "LD_PRELOAD" entry)) env /\
  (forall name, has_equals name = false -> name <> "LD_PRELOAD" ->
     getenv name (after_load env) = getenv name env).
Proof.
  rewrite after_load_remove. split.
  - apply remove_entries_filter.
  - intros [| c name] Hn Hne; [reflexivity |].
    unfold getenv. now apply find_entry_remove_entries_other.
Qed.

Lemma unset_preload_frame_witness :
  getenv "OTHER" (after_load scenario_env) = getenv "OTHER" scenario_env.
Proof.
  apply (proj2 (unset_preload_frame scenario_env) "OTHER").
  - reflexivity.
  - discriminate.
Defined.

(** A string with an equals sign is not a variable name, and [getenv] on one
    is not the look-up of a binding: the entry [LD_PRELOAD=x=y] belongs to
    LD_PRELOAD, yet glibc's scan also matches it against the string
    [LD_PRELOAD=x]. *)
Remark getenv_of_a_non_name :
  getenv "LD_PRELOAD=x" ["LD_PRELOAD=x=y"] = Some "y" /\
  getenv "LD_PRELOAD=x" (after_load ["LD_PRELOAD=x=y"]) = None /\
  valid_name "LD_PRELOAD=x" = false.
Proof. repeat split. Qed.

(** C4 (idempotence on absence): when LD_PRELOAD is not present, the
    constructor returns with the whole block as it was and the removal
    reports success; and on any block, running the constructor twice is
    running it once. *)
Theorem unset_preload_idempotent (env : environ) :
  (getenv "LD_PRELOAD" env = None ->
     unset_preload Libc.unsetenv env = (tt, env) /\
     fst (Libc.unsetenv "LD_PRELOAD" env) = 0) /\
  (_ <- unset_preload Libc.unsetenv ;; unset_preload Libc.unsetenv) env =
    unset_preload Libc.unsetenv env.
Proof.
  split.
  - intros Habsent. apply scrubbed_getenv in Habsent. split.
    + rewrite unset_preload_run. f_equal.
      change (remove_entries "LD_PRELOAD" env = env).
      now apply remove_entries_absent.
    + reflexivity.
  - unfold bind at 1. rewrite (unset_preload_run Libc.unsetenv env).
    rewrite unset_preload_run. f_equal.
    change (remove_entries "LD_PRELOAD" (remove_entries "LD_PRELOAD" env) =
            remove_entries "LD_PRELOAD" env).
    apply remove_entries_absent.
    intros entry He. now apply remove_entries_In in He.
Qed.

Lemma unset_preload_idempotent_witness :
  unset_preload Libc.unsetenv ["OTHER=x"] = (tt, ["OTHER=x"]) /\
  fst (Libc.unsetenv "LD_PRELOAD" ["OTHER=x"]) = 0.
Proof.
  apply (proj1 (unset_preload_idempotent ["OTHER=x"])). reflexivity.
Defined.

(** C5 (scenario): started with LD_PRELOAD="/path/a.so /path/unset.so" and
    OTHER=x, the process has the block [OTHER=x] once the constructor has
    run; a child created then is handed the entry OTHER=x (the line [env]
    prints) and no entry of LD_PRELOAD. *)
Theorem scenario_post_load :
  after_load scenario_env = ["OTHER=x"] /\
  proc_children (perform Spawn (loaded scenario_env)) = [["OTHER=x"]] /\
  (forall child, In child (proc_children (perform Spawn (loaded scenario_env))) ->
     In "OTHER=x" child /\
     getenv "OTHER" child = Some "x" /\
     getenv "LD_PRELOAD" child = None /\
     forallb (fun line => negb (defines "LD_PRELOAD" line)) child = true).
Proof.
  split; [reflexivity |]. split; [reflexivity |].
  intros child [<- | []].
  repeat split. now left.
Qed.

(** C6 (fixed, self-referential target): whatever primitive the constructor
    is linked with and whatever the state of the process, the constructor
    asks for the removal of one name, the literal LD_PRELOAD, which is the
    dynamic linker's preload-list variable; it has no argument from which
    the name could come, and its state effect is that of this one call. *)
Theorem unset_preload_target (S : Type) (prim : string -> M S int) (s : S) :
  preload_variable = "LD_PRELOAD" /\
  unset_preload prim s = (tt, snd (prim preload_variable s)) /\
  fst (snd (unset_preload (traced prim) ([], s))) = [preload_variable].
Proof.
  split; [reflexivity |]. split.
  - apply unset_preload_run.
  - now rewrite traced_unset_preload.
Qed.

(** C7 (error opacity): the constructor returns nothing but [tt], and what it
    leaves behind depends on the state effect of the removal primitive only,
    never on the value the primitive returns: two primitives with the same
    effect, one reporting success and one reporting failure, give the same
    run.  A removal that the C library refuses leaves the block unchanged. *)
Theorem unset_preload_error_opaque :
  (forall (S : Type) (prim1 prim2 : string -> M S int) (s : S),
     snd (prim1 "LD_PRELOAD" s) = snd (prim2 "LD_PRELOAD" s) ->
     unset_preload prim1 s = unset_preload prim2 s) /\
  (forall (S : Type) (prim : string -> M S int) (s : S),
     fst (unset_preload prim s) = tt /\
     unset_preload (reporting_failure prim) s = unset_preload prim s) /\
  (forall (name : string) (env : environ),
     fst (Libc.unsetenv name env) <> 0 ->
     fst (Libc.unsetenv name env) = -1 /\ snd (Libc.unsetenv name env) = env).
Proof.
  split; [| split].
  - intros S prim1 prim2 s H. rewrite !unset_preload_run. now rewrite H.
  - intros S prim s. rewrite !unset_preload_run. split; reflexivity.
  - intros name env. unfold Libc.unsetenv.
    destruct (valid_name name); simpl; intros H.
    + now contradiction H.
    + split; reflexivity.
Qed.

Lemma unset_preload_error_opaque_witness :
  unset_preload (reporting_failure Libc.unsetenv) scenario_env =
    unset_preload Libc.unsetenv scenario_env /\
  (fst (Libc.unsetenv "A=B" scenario_env) = -1 /\
   snd (Libc.unsetenv "A=B" scenario_env) = scenario_env).
Proof.
  split.
  - apply (proj1 unset_preload_error_opaque). reflexivity.
  - apply (proj2 (proj2 unset_preload_error_opaque)). discriminate.
Defined.

(** C8 (the variable stays absent): in every state the process reaches after
    the one run of the constructor, by steps that do not themselves re-add
    LD_PRELOAD, the variable is not present; and the constructor makes one
    call that writes the environment, no more. *)
Theorem preload_stays_absent :
  (forall (env0 : environ) (p : process),
     reachable env0 p -> getenv "LD_PRELOAD" (proc_environ p) = None) /\
  (forall (env : environ),
     length (fst (snd (unset_preload (traced Libc.unsetenv) ([], env)))) = 1%nat).
Proof.
  split.
  - intros env0 p Hreach.
    apply scrubbed_getenv. exact (proj1 (reachable_clean env0 p Hreach)).
  - intros env. now rewrite traced_unset_preload.
Qed.

Lemma preload_stays_absent_witness :
  getenv "LD_PRELOAD"
    (proc_environ
       (perform (Putenv "LANG=C")
          (perform Spawn
             (perform (Setenv "OTHER" "y" 1) (loaded scenario_env))))) = None.
Proof.
  apply (proj1 preload_stays_absent scenario_env).
  repeat (eapply reach_step; [| apply step_perform; reflexivity]).
  apply reach_loaded.
Defined.

(** C9 (the failure branch is not reachable): the one call the constructor
    makes passes a valid name, not empty and without an equals sign, and is
    never refused: on every block the record of the constructor's calls is
    the single call of LD_PRELOAD with result 0, no call returns -1, and
    [errno] is after the constructor what it was before. *)
Theorem unset_preload_never_fails (env : environ) :
  fst (snd (unset_preload (logged Libc.unsetenv) ([], env))) =
    [("LD_PRELOAD", 0)] /\
  (forall name r,
     In (name, r) (fst (snd (unset_preload (logged Libc.unsetenv) ([], env)))) ->
     valid_name name = true /\ name <> "" /\ has_equals name = false /\
     r = 0 /\ r <> -1) /\
  (forall (errno : int) (argv : list string),
     m_errno (snd (unset_preload unsetenv_errno
                     {| m_environ := env; m_errno := errno; m_argv := argv |})) =
     errno).
Proof.
  rewrite logged_unset_preload. cbn [fst snd app].
  split; [reflexivity |]. split.
  - intros name r [H | []]. injection H as <- <-.
    repeat split; discriminate.
  - intros errno argv. rewrite unset_preload_run. reflexivity.
Qed.

Lemma unset_preload_never_fails_witness :
  valid_name "LD_PRELOAD" = true /\ "LD_PRELOAD" <> "" /\
  has_equals "LD_PRELOAD" = false /\ 0 = 0 /\ 0 <> -1.
Proof.
  apply (proj1 (proj2 (unset_preload_never_fails scenario_env)) "LD_PRELOAD" 0).
  left. reflexivity.
Defined.



(** ** Further properties of the constructor *)

(** What [entry_value] reads back is what was written: an entry defines
    [name] with value [v] exactly when it is the text [name=v]. *)
Lemma entry_value_iff (name entry v : string) :
  entry_value name entry = Some v <-> entry = name ++ "=" ++ v.
Proof.
  split; [| intros ->; apply entry_value_own].
  revert entry. induction name as [| a name IH]; intros [| c entry]; simpl;
    try discriminate.
  - destruct (Ascii.eqb c "=") eqn:Ec; [| discriminate].
    apply ascii_eqb_true in Ec. intros [= ->]. now subst c.
  - destruct (Ascii.eqb a c) eqn:Ea; [| discriminate].
    apply ascii_eqb_true in Ea. subst c.
    intros H. now rewrite (IH entry H).
Qed.

Lemma defines_preload_iff (entry : string) :
  defines "LD_PRELOAD" entry = false <->
  (forall v, entry <> "LD_PRELOAD=" ++ v).
Proof.
  split.
  - intros Hd v ->.
    apply defines_false in Hd.
    change ("LD_PRELOAD=" ++ v) with ("LD_PRELOAD" ++ "=" ++ v) in Hd.
    rewrite entry_value_own in Hd. discriminate.
  - intros H. destruct (defines "LD_PRELOAD" entry) eqn:Hd; [| reflexivity].
    destruct (defines_true _ _ Hd) as [v Hv].
    apply entry_value_iff in Hv. now destruct (H v).
Qed.

Lemma remove_entries_length (name : string) (env : environ) :
  (length (remove_entries name env) <= length env)%nat.
Proof.
  induction env as [| entry rest IH]; simpl; [lia |].
  destruct (defines name entry); simpl; lia.
Qed.

Lemma remove_entries_shrinks (name : string) (env : environ) :
  find_entry name env <> None ->
  (length (remove_entries name env) < length env)%nat.
Proof.
  induction env as [| entry rest IH]; simpl; [congruence |].
  unfold defines. destruct (entry_value name entry) as [v |]; intros H.
  - pose proof (remove_entries_length name rest). lia.
  - specialize (IH H). simpl. lia.
Qed.

(** Writing an entry that is not one of LD_PRELOAD, under a name that no
    entry of LD_PRELOAD defines, commutes with taking LD_PRELOAD out. *)
Lemma remove_add_commute (name new : string) (replace : bool) (env : environ) :
  defines "LD_PRELOAD" new = false ->
  (forall old, defines "LD_PRELOAD" old = true -> defines name old = false) ->
  remove_entries "LD_PRELOAD" (add_to_environ name new replace env) =
  add_to_environ name new replace (remove_entries "LD_PRELOAD" env).
Proof.
  intros Hnew Hsep.
  induction env as [| old rest IH]; cbn [add_to_environ remove_entries].
  - now rewrite Hnew.
  - destruct (defines name old) eqn:Hn.
    + assert (Ho : defines "LD_PRELOAD" old = false).
      { destruct (defines "LD_PRELOAD" old) eqn:E; [| reflexivity].
        rewrite (Hsep old E) in Hn. discriminate. }
      rewrite Ho. cbn [add_to_environ]. rewrite Hn.
      destruct replace; cbn [remove_entries]; now rewrite ?Hnew, ?Ho.
    + cbn [remove_entries].
      destruct (defines "LD_PRELOAD" old) eqn:Ho.
      * exact IH.
      * cbn [add_to_environ]. rewrite Hn. now rewrite IH.
Qed.

Lemma remove_remove_commute (n1 n2 : string) (env : environ) :
  remove_entries n1 (remove_entries n2 env) =
  remove_entries n2 (remove_entries n1 env).
Proof.
  induction env as [| entry rest IH]; [reflexivity |].
  cbn [remove_entries].
  destruct (defines n2 entry) eqn:E2, (defines n1 entry) eqn:E1;
    cbn [remove_entries]; rewrite ?E1, ?E2, IH; reflexivity.
Qed.

Lemma after_load_unsetenv_commute (name : string) (env : environ) :
  after_load (snd (Libc.unsetenv name env)) =
  snd (Libc.unsetenv name (after_load env)).
Proof.
  rewrite !after_load_remove. unfold Libc.unsetenv.
  destruct (valid_name name); simpl; [apply remove_remove_commute | reflexivity].
Qed.

Lemma has_equals_name_of (entry : string) : has_equals (name_of entry) = false.
Proof.
  induction entry as [| c entry IH]; simpl; [reflexivity |].
  destruct (Ascii.eqb c "=") eqn:Ec; simpl; [reflexivity |].
  now rewrite Ec.
Qed.

(** An entry with an equals sign defines the name [putenv] cuts from it. *)
Lemma defines_name_of (entry : string) :
  has_equals entry = true -> defines (name_of entry) entry = true.
Proof.
  unfold defines.
  induction entry as [| c entry IH]; simpl; [discriminate |].
  destruct (Ascii.eqb c "=") eqn:Ec; simpl.
  - now rewrite Ec.
  - rewrite Ascii.eqb_refl. exact IH.
Qed.

(** X1 (what is taken out): the block after the constructor holds exactly
    the entries of the block before that are not of the form
    [LD_PRELOAD=value].  So an entry with the empty value goes too, while an
    entry of a longer or shorter name, or the bare text LD_PRELOAD without
    an equals sign, stays. *)
Theorem after_load_entries (env : environ) (entry : string) :
  In entry (after_load env) <->
  In entry env /\ (forall v, entry <> "LD_PRELOAD=" ++ v).
Proof.
  rewrite after_load_remove, remove_entries_In, defines_preload_iff.
  reflexivity.
Qed.

(** X2 (changed exactly when present): the constructor leaves the block as
    it was if and only if LD_PRELOAD was not present; when it was present
    the block gets strictly shorter, and it never gets longer. *)
Theorem after_load_unchanged_iff (env : environ) :
  (after_load env = env <-> getenv "LD_PRELOAD" env = None) /\
  (getenv "LD_PRELOAD" env <> None ->
     (length (after_load env) < length env)%nat) /\
  (length (after_load env) <= length env)%nat.
Proof.
  rewrite after_load_remove. repeat split.
  - intros H. rewrite <- H, <- after_load_remove.
    apply scrubbed_getenv, after_load_scrubbed.
  - intros H. apply remove_entries_absent. now apply scrubbed_getenv.
  - apply remove_entries_shrinks.
  - apply remove_entries_length.
Qed.

Lemma after_load_unchanged_iff_witness :
  (length (after_load scenario_env) < length scenario_env)%nat.
Proof.
  apply (proj1 (proj2 (after_load_unchanged_iff scenario_env))).
  discriminate.
Defined.

(** X3 (order of the scrub and other writes): for every action of the
    program that does not itself re-add LD_PRELOAD, the environment block is
    the same whether the constructor runs before the action or after it.
    (The blocks handed to children are another matter: a child created
    before the scrub would have inherited the variable.) *)
Theorem scrub_commutes_with_writes (a : action) (p : process) :
  readds_preload a = false ->
  after_load (proc_environ (perform a p)) =
  proc_environ
    (perform a {| proc_environ := after_load (proc_environ p);
                  proc_children := proc_children p |}).
Proof.
  intros Ha.
  destruct a as [name value overwrite | name | entry | |];
    cbn [perform proc_environ readds_preload] in *.
  - unfold setenv. destruct (valid_name name) eqn:Hv; [| reflexivity].
    cbn [snd]. rewrite !after_load_remove.
    assert (Hn : has_equals name = false).
    { destruct name; [discriminate |].
      unfold valid_name in Hv. now apply negb_true_iff in Hv. }
    apply remove_add_commute.
    + now apply new_entry_not_preload.
    + intros old Hold. unfold defines.
      rewrite (preload_entry_no_other name old Hn); [reflexivity | | exact Hold].
      now apply String.eqb_neq.
  - apply after_load_unsetenv_commute.
  - unfold putenv. destruct (has_equals entry) eqn:He; cbn [snd].
    + rewrite !after_load_remove.
      apply remove_add_commute; [exact Ha |].
      intros old Hold. unfold defines.
      rewrite (preload_entry_no_other (name_of entry) old);
        [reflexivity | apply has_equals_name_of | | exact Hold].
      intros Heq. pose proof (defines_name_of entry He) as Hd.
      rewrite Heq in Hd. congruence.
    + apply after_load_unsetenv_commute.
  - reflexivity.
  - reflexivity.
Qed.

Lemma scrub_commutes_with_writes_witness :
  after_load (proc_environ
    (perform (Setenv "OTHER" "y" 1)
       {| proc_environ := scenario_env; proc_children := [] |})) =
  proc_environ
    (perform (Setenv "OTHER" "y" 1)
       {| proc_environ := after_load scenario_env; proc_children := [] |}).
Proof.
  apply (scrub_commutes_with_writes (Setenv "OTHER" "y" 1)
           {| proc_environ := scenario_env; proc_children := [] |}).
  reflexivity.
Defined.
